(** * pkg/queue/protobuf_stats_reporter.go: the protobuf stats reporter

    A shallow embedding of [ProtobufStatsReporter] (construction, [Report],
    [ServeHTTP], [httpError]) together with the parts of the Go runtime the
    file leans on: [float64] arithmetic, [time.Duration], [sync/atomic.Value]
    and the [net/http] response writer. *)

From Stdlib Require Import ZArith Floats Uint63.
From stdpp Require Import base strings list gmap.

Local Open Scope Z_scope.

(** ** float64

    Go's [float64] is IEEE 754 binary64 with round-to-nearest-even, which is
    what the kernel's primitive floats implement.  NaN payloads are not
    distinguished. *)

Abbreviation float64 := PrimFloat.float.

(** [float64(z)] for an integer [z] with [|z| < 2^63]. *)
Definition float64_of_Z (z : Z) : float64 :=
  if z <? 0 then PrimFloat.opp (PrimFloat.of_uint63 (Uint63.of_Z (- z)))
  else PrimFloat.of_uint63 (Uint63.of_Z z).

(** ** package time *)

Module time.

(** [time.Duration]: a signed 64-bit count of nanoseconds. *)
Definition Duration := Z.

Definition minDuration : Duration := - 2 ^ 63.
Definition maxDuration : Duration := 2 ^ 63 - 1.

Definition Second : Duration := 1000000000.

(** [func (d Duration) Seconds() float64]:
    [sec := d / Second; nsec := d % Second;
     return float64(sec) + float64(nsec)/1e9].
    Go's integer [/] and [%] truncate towards zero. *)
Definition Seconds (d : Duration) : float64 :=
  let sec := Z.quot d Second in
  let nsec := Z.rem d Second in
  (float64_of_Z sec + float64_of_Z nsec / 1e9)%float.

(** A reading of the monotonic clock, in nanoseconds. *)
Definition Time := Z.

(** [t.Sub(u)]: the difference, saturated to the range of [Duration]. *)
Definition Sub (t u : Time) : Duration :=
  let d := t - u in
  if d <? minDuration then minDuration
  else if maxDuration <? d then maxDuration
  else d.

(** [time.Since(t)] is [time.Now().Sub(t)]; the reading of the clock taken
    by the call is passed in as [now]. *)
Definition Since (now t : Time) : Duration := Sub now t.

End time.

(** ** The imported record types

    Neither type is declared in this file; the fields are the ones the
    struct literal and the selectors of [Report] name. *)

(** [knative.dev/networking/pkg]. *)
Module network.

Definition ProtoAcceptContent : string := "application/protobuf".

Record RequestStatsReport := {
  AverageConcurrency : float64;
  AverageProxiedConcurrency : float64;
  RequestCount : float64;
  ProxiedRequestCount : float64
}.

End network.

(** [knative.dev/serving/pkg/autoscaler/metrics]. *)
Module metrics.

Record Stat := {
  PodName : string;
  AverageConcurrentRequests : float64;
  AverageProxiedConcurrentRequests : float64;
  RequestCount : float64;
  ProxiedRequestCount : float64;
  ProcessUptime : float64
}.

End metrics.

(** ** package net/http: the response writer

    A [ResponseWriter] is an interface; what a handler does to it is the
    sequence of calls it makes.  [Response] is the observable outcome of
    such a sequence: the status code and the headers as they stood when the
    header was written, and the bytes of the body.  Byte slices are
    modelled as strings. *)
Module http.

Definition StatusOK : Z := 200.
Definition StatusInternalServerError : Z := 500.

Inductive Call :=
| HeaderSet (key value : string)   (* w.Header().Set(key, value) *)
| WriteHeader (statusCode : Z)     (* w.WriteHeader(statusCode) *)
| Write (p : string).              (* w.Write(p) *)

Record Response := {
  HeaderMap : gmap string (list string);  (* the live map behind w.Header() *)
  wroteHeader : bool;
  Code : Z;
  snapHeader : gmap string (list string); (* the headers that were sent *)
  Body : string
}.

(** A writer nothing has been written to, whose header map holds [h]. *)
Definition fresh (h : gmap string (list string)) : Response :=
  {| HeaderMap := h; wroteHeader := false; Code := StatusOK;
     snapHeader := ∅; Body := "" |}.

(** [Header.Set] replaces the values of the key.  The keys set by this
    program are already in canonical form. *)
Definition doHeaderSet (key value : string) (w : Response) : Response :=
  {| HeaderMap := <[key := [value]]> (HeaderMap w);
     wroteHeader := wroteHeader w; Code := Code w;
     snapHeader := snapHeader w; Body := Body w |}.

(** Only the first [WriteHeader] counts; it fixes code and headers. *)
Definition doWriteHeader (statusCode : Z) (w : Response) : Response :=
  if wroteHeader w then w
  else {| HeaderMap := HeaderMap w; wroteHeader := true; Code := statusCode;
          snapHeader := HeaderMap w; Body := Body w |}.

(** [Write] sends the header with [StatusOK] first when none was sent.
    (Content sniffing only applies when no Content-Type is set by then.) *)
Definition doWrite (p : string) (w : Response) : Response :=
  let w := doWriteHeader StatusOK w in
  {| HeaderMap := HeaderMap w; wroteHeader := wroteHeader w; Code := Code w;
     snapHeader := snapHeader w; Body := Body w +:+ p |}.

Definition apply (c : Call) (w : Response) : Response :=
  match c with
  | HeaderSet key value => doHeaderSet key value w
  | WriteHeader statusCode => doWriteHeader statusCode w
  | Write p => doWrite p w
  end.

Definition replay (cs : list Call) (w : Response) : Response :=
  foldl (λ w c, apply c w) w cs.

(** The headers of the response as the client receives it. *)
Definition Result_Header (w : Response) : gmap string (list string) :=
  if wroteHeader w then snapHeader w else HeaderMap w.

(** The newline character, as a string. *)
Definition LF : string := String (Ascii.ascii_of_nat 10) "".

(** [func Error(w ResponseWriter, error string, code int)]:
    [w.Header().Set("Content-Type", "text/plain; charset=utf-8");
     w.Header().Set("X-Content-Type-Options", "nosniff");
     w.WriteHeader(code); fmt.Fprintln(w, error)].
    [Fprintln] writes its operand followed by a newline, in one [Write]. *)
Definition Error_calls (error : string) (code : Z) : list Call :=
  [ HeaderSet "Content-Type" "text/plain; charset=utf-8";
    HeaderSet "X-Content-Type-Options" "nosniff";
    WriteHeader code;
    Write (error +:+ LF) ].

End http.

(** ** package github.com/gogo/protobuf/proto

    [proto.Marshal] is the external codec: for each message it yields either
    the encoded bytes ([err == nil]) or an error, of which only the text
    [err.Error()] is used. *)
Module proto.

Inductive result :=
| Bytes (buffer : string)
| Err (text : string).

Definition Marshaler := metrics.Stat → result.

End proto.

(** ** The reporter *)

Definition contentTypeHeader : string := "Content-Type".

(** [stat] is the [atomic.Value]: [None] until the first [Store] (where
    [Load] returns [nil]), then the value last stored.  Only
    [metrics.Stat] values are ever stored in it. *)
Record ProtobufStatsReporter := {
  startTime : time.Time;
  stat : option metrics.Stat;
  podName : string;
  reportingPeriodSeconds : float64
}.

(** The receiver with [v] in its atomic value. *)
Definition holding (r : ProtobufStatsReporter) (v : option metrics.Stat)
    : ProtobufStatsReporter :=
  {| startTime := startTime r; stat := v; podName := podName r;
     reportingPeriodSeconds := reportingPeriodSeconds r |}.

(** [NewProtobufStatsReporter]; [now] is what [time.Now()] returns. *)
Definition NewProtobufStatsReporter (now : time.Time)
    (pod : string) (reportingPeriod : time.Duration) : ProtobufStatsReporter :=
  {| startTime := now;
     stat := None;
     podName := pod;
     reportingPeriodSeconds := time.Seconds reportingPeriod |}.

(** The body of a method is a tree of the calls it makes on what it shares
    with the rest of the process: the atomic value of its receiver, the
    codec and the response writer.  The receiver's other fields are written
    by the constructor only, and the methods take them from [r]. *)
Inductive Go (A : Type) : Type :=
| Return (a : A)
| Load (k : option metrics.Stat → Go A)                (* r.stat.Load() *)
| Store (v : metrics.Stat) (k : Go A)                  (* r.stat.Store(v) *)
| Marshal (pb : metrics.Stat) (k : proto.result → Go A) (* proto.Marshal(pb) *)
| Respond (c : http.Call) (k : Go A).                  (* a call on w *)
Arguments Return {A} a.
Arguments Load {A} k.
Arguments Store {A} v k.
Arguments Marshal {A} pb k.
Arguments Respond {A} c k.

Fixpoint Go_bind {A B} (f : A → Go B) (p : Go A) : Go B :=
  match p with
  | Return a => f a
  | Load k => Load (λ v, Go_bind f (k v))
  | Store v k => Store v (Go_bind f k)
  | Marshal pb k => Marshal pb (λ res, Go_bind f (k res))
  | Respond c k => Respond c (Go_bind f k)
  end.

#[global] Instance Go_ret : MRet Go := @Return.
#[global] Instance Go_mbind : MBind Go := @Go_bind.

Definition atomic_Load : Go (option metrics.Stat) := Load Return.
Definition atomic_Store (v : metrics.Stat) : Go unit := Store v (Return tt).
Definition proto_Marshal (pb : metrics.Stat) : Go proto.result := Marshal pb Return.
Definition Header_Set (key value : string) : Go unit :=
  Respond (http.HeaderSet key value) (Return tt).
Definition Write (p : string) : Go unit := Respond (http.Write p) (Return tt).

(** [http.Error(w, error, code)]. *)
Definition http_Error (error : string) (code : Z) : Go unit :=
  foldr (λ c k, Respond c k) (Return tt) (http.Error_calls error code).

Definition errorPrefix : string :=
  "An error has occurred while serving metrics:" +:+ http.LF +:+ http.LF.

Definition httpError (errMsg : string) : Go unit :=
  http_Error (errorPrefix +:+ errMsg) http.StatusInternalServerError.

(** [Report]; [now] is the reading of the clock [time.Since] takes. *)
Definition Report (r : ProtobufStatsReporter) (now : time.Time)
    (stats : network.RequestStatsReport) : Go unit :=
  atomic_Store
    {| metrics.PodName := podName r;
       metrics.ProcessUptime := time.Seconds (time.Since now (startTime r));
       metrics.RequestCount :=
         (network.RequestCount stats / reportingPeriodSeconds r)%float;
       metrics.ProxiedRequestCount :=
         (network.ProxiedRequestCount stats / reportingPeriodSeconds r)%float;
       metrics.AverageConcurrentRequests := network.AverageConcurrency stats;
       metrics.AverageProxiedConcurrentRequests :=
         network.AverageProxiedConcurrency stats |}.

Definition ServeHTTP (r : ProtobufStatsReporter) : Go unit :=
  stat ← atomic_Load;
  match stat with
  | None => httpError "no metrics available yet"
  | Some data =>
      res ← proto_Marshal data;
      match res with
      | proto.Err text => httpError text
      | proto.Bytes buffer =>
          Header_Set contentTypeHeader network.ProtoAcceptContent;;
          Write buffer
      end
  end.

(** ** Running a method on its own

    What a call did is recorded in the order it happened. *)
Inductive Event :=
| EvLoad (v : option metrics.Stat)
| EvStore (v : metrics.Stat)
| EvMarshal (pb : metrics.Stat) (res : proto.result)
| EvRespond (c : http.Call).

Section Exec.

Variable marshal : proto.Marshaler.

(** [exec p r] runs [p] to its end with nothing else running: the value
    returned, the receiver afterwards, and the events in order. *)
Fixpoint exec {A} (p : Go A) (r : ProtobufStatsReporter)
    : A * ProtobufStatsReporter * list Event :=
  match p with
  | Return a => (a, r, [])
  | Load k =>
      let '(a, r', tr) := exec (k (stat r)) r in
      (a, r', EvLoad (stat r) :: tr)
  | Store v k =>
      let '(a, r', tr) := exec k (holding r (Some v)) in
      (a, r', EvStore v :: tr)
  | Marshal pb k =>
      let '(a, r', tr) := exec (k (marshal pb)) r in
      (a, r', EvMarshal pb (marshal pb) :: tr)
  | Respond c k =>
      let '(a, r', tr) := exec k r in
      (a, r', EvRespond c :: tr)
  end.

(** The two entry points, called on the receiver [r]. *)
Definition call_Report (now : time.Time) (stats : network.RequestStatsReport)
    (r : ProtobufStatsReporter) : ProtobufStatsReporter * list Event :=
  let '(_, r', tr) := exec (Report r now stats) r in (r', tr).

Definition call_ServeHTTP (r : ProtobufStatsReporter)
    : ProtobufStatsReporter * list Event :=
  let '(_, r', tr) := exec (ServeHTTP r) r in (r', tr).

End Exec.

(** Projections of a trace. *)
Definition calls (tr : list Event) : list http.Call :=
  omap (λ e, match e with EvRespond c => Some c | _ => None end) tr.

Definition published (tr : list Event) : list metrics.Stat :=
  omap (λ e, match e with EvStore v => Some v | _ => None end) tr.

Definition encoded (tr : list Event) : list metrics.Stat :=
  omap (λ e, match e with EvMarshal pb _ => Some pb | _ => None end) tr.

(** The response a trace leaves on a fresh writer with headers [h]. *)
Definition response (h : gmap string (list string)) (tr : list Event)
    : http.Response :=
  http.replay (calls tr) (http.fresh h).

(** ** Sequences of calls on one reporter *)
Inductive Invocation :=
| InvReport (now : time.Time) (stats : network.RequestStatsReport)
| InvServeHTTP.

Section Run.

Variable marshal : proto.Marshaler.

Definition invoke (i : Invocation) (r : ProtobufStatsReporter)
    : ProtobufStatsReporter * list Event :=
  match i with
  | InvReport now stats => call_Report marshal now stats r
  | InvServeHTTP => call_ServeHTTP marshal r
  end.

(** The calls of [invs] one after the other; the traces are concatenated. *)
Fixpoint run (invs : list Invocation) (r : ProtobufStatsReporter)
    : ProtobufStatsReporter * list Event :=
  match invs with
  | [] => (r, [])
  | i :: invs =>
      let '(r1, tr1) := invoke i r in
      let '(r2, tr2) := run invs r1 in
      (r2, tr1 ++ tr2)
  end.

End Run.

(** ** The snapshot as the specification describes it

    The instance name of the reporter, the time since its start in seconds,
    the two counts divided by the reporting period, and the two averages as
    they came in. *)
Definition snapshot (r : ProtobufStatsReporter) (now : time.Time)
    (stats : network.RequestStatsReport) : metrics.Stat :=
  {| metrics.PodName := podName r;
     metrics.AverageConcurrentRequests := network.AverageConcurrency stats;
     metrics.AverageProxiedConcurrentRequests :=
       network.AverageProxiedConcurrency stats;
     metrics.RequestCount :=
       PrimFloat.div (network.RequestCount stats) (reportingPeriodSeconds r);
     metrics.ProxiedRequestCount :=
       PrimFloat.div (network.ProxiedRequestCount stats)
         (reportingPeriodSeconds r);
     metrics.ProcessUptime :=
       time.Seconds (time.Sub now (startTime r)) |}.

(** Whether a scrape of [r] ends in an error response. *)
Definition serve_fails (marshal : proto.Marshaler) (r : ProtobufStatsReporter)
    : bool :=
  match stat r with
  | None => true
  | Some data =>
      match marshal data with proto.Err _ => true | proto.Bytes _ => false end
  end.

(** The trace of [httpError errMsg]. *)
Definition error_trace (errMsg : string) : list Event :=
  EvRespond <$>
    http.Error_calls (errorPrefix +:+ errMsg) http.StatusInternalServerError.

(** ** Calls running concurrently

    Each call runs in a thread of its own.  A thread advances by one call of
    its [Go] tree at a time, and the calls of different threads interleave
    in any order: [Load] and [Store] of the atomic value are single steps,
    which is what [sync/atomic] provides. *)

Record Thread := {
  origin : Invocation;   (* the call the thread runs *)
  code : Go unit;        (* what is left of its body *)
  log : list Event       (* what it has done so far *)
}.

Record Config := {
  shared : ProtobufStatsReporter;
  threads : list Thread
}.

(** What the scheduler may do next: start a call, or let thread [n] make
    its next step. *)
Inductive Choice :=
| Spawn (i : Invocation)
| Step (n : nat).

Definition body (i : Invocation) (r : ProtobufStatsReporter) : Go unit :=
  match i with
  | InvReport now stats => Report r now stats
  | InvServeHTTP => ServeHTTP r
  end.

Definition spawn (i : Invocation) (r : ProtobufStatsReporter) : Thread :=
  {| origin := i; code := body i r; log := [] |}.

Definition init (r : ProtobufStatsReporter) : Config :=
  {| shared := r; threads := [] |}.

Section Interleaving.

Variable marshal : proto.Marshaler.

(** One step of a body against the shared receiver. *)
Definition step1 {A} (p : Go A) (r : ProtobufStatsReporter)
    : option (Go A * ProtobufStatsReporter * Event) :=
  match p with
  | Return _ => None
  | Load k => Some (k (stat r), r, EvLoad (stat r))
  | Store v k => Some (k, holding r (Some v), EvStore v)
  | Marshal pb k => Some (k (marshal pb), r, EvMarshal pb (marshal pb))
  | Respond c k => Some (k, r, EvRespond c)
  end.

(** A choice that cannot be taken (no such thread, or the thread has
    returned) leaves the configuration as it is. *)
Definition schedule1 (c : Config) (ch : Choice) : Config :=
  match ch with
  | Spawn i =>
      {| shared := shared c; threads := threads c ++ [spawn i (shared c)] |}
  | Step n =>
      match threads c !! n with
      | None => c
      | Some t =>
          match step1 (code t) (shared c) with
          | None => c
          | Some (p', r', e) =>
              {| shared := r';
                 threads :=
                   <[n := {| origin := origin t; code := p';
                             log := log t ++ [e] |}]> (threads c) |}
          end
      end
  end.

Definition schedule (chs : list Choice) (c : Config) : Config :=
  foldl schedule1 c chs.

End Interleaving.

(** A thread that has returned. *)
Definition returned (t : Thread) : Prop := code t = Return tt.

(** [s] is the snapshot of a [Report] call of [c] that has returned. *)
Definition produced (r0 : ProtobufStatsReporter) (c : Config)
    (s : metrics.Stat) : Prop :=
  ∃ n t now stats,
    threads c !! n = Some t ∧ origin t = InvReport now stats ∧ returned t ∧
    s = snapshot r0 now stats.

(** What a fetch from the cell may observe in [c]. *)
Definition observable (r0 : ProtobufStatsReporter) (c : Config)
    (v : option metrics.Stat) : Prop :=
  match v with
  | None => True
  | Some s => produced r0 c s
  end.

(** A body that makes no call on the atomic value. *)
Fixpoint local {A} (p : Go A) : Prop :=
  match p with
  | Return _ => True
  | Load _ => False
  | Store _ _ => False
  | Marshal _ k => ∀ res, local (k res)
  | Respond _ k => local k
  end.

(** [ServeHTTP] once the value is loaded. *)
Definition served (v : option metrics.Stat) : Go unit :=
  match v with
  | None => httpError "no metrics available yet"
  | Some data =>
      res ← proto_Marshal data;
      match res with
      | proto.Err text => httpError text
      | proto.Bytes buffer =>
          Header_Set contentTypeHeader network.ProtoAcceptContent;;
          Write buffer
      end
  end.

(** Threads that have returned are in [c'] as they are in [c]. *)
Definition extends (c c' : Config) : Prop :=
  ∀ n t, threads c !! n = Some t → returned t → threads c' !! n = Some t.

(** The invariant of the interleaved runs of calls on a reporter that
    started as [r0]: a [Report] thread has either not stored yet or has
    stored its snapshot and returned; a [ServeHTTP] thread has either not
    loaded yet or is running [served v] for a value [v] it could observe. *)
Definition thread_inv (marshal : proto.Marshaler) (r0 : ProtobufStatsReporter)
    (c : Config) (t : Thread) : Prop :=
  match origin t with
  | InvReport now stats =>
      (code t = Report r0 now stats ∧ log t = []) ∨
      (code t = Return tt ∧ log t = [EvStore (snapshot r0 now stats)])
  | InvServeHTTP =>
      (code t = ServeHTTP r0 ∧ log t = []) ∨
      ∃ v, observable r0 c v ∧ local (code t) ∧
           log t ++ (exec marshal (code t) r0).2
           = EvLoad v :: (exec marshal (served v) r0).2
  end.

Definition inv (marshal : proto.Marshaler) (r0 : ProtobufStatsReporter)
    (c : Config) : Prop :=
  shared c = holding r0 (stat (shared c)) ∧
  observable r0 c (stat (shared c)) ∧
  ∀ n t, threads c !! n = Some t → thread_inv marshal r0 c t.

(** ** Sample inputs

    A reporter for pod "pod-a" with a period of a minute, two raw reports,
    a codec that always returns bytes and one that never does, and a
    schedule in which a scrape loads between two reports and finishes
    after the second. *)
Definition sample_reporter : ProtobufStatsReporter :=
  NewProtobufStatsReporter 0 "pod-a" (60 * time.Second).

Definition sample_report : network.RequestStatsReport :=
  {| network.AverageConcurrency := 2;
     network.AverageProxiedConcurrency := 0;
     network.RequestCount := 120;
     network.ProxiedRequestCount := 0 |}.

Definition second_report : network.RequestStatsReport :=
  {| network.AverageConcurrency := 1;
     network.AverageProxiedConcurrency := 0.5;
     network.RequestCount := 60;
     network.ProxiedRequestCount := 30 |}.

Definition codec_ok : proto.Marshaler := λ pb, proto.Bytes (metrics.PodName pb).

Definition codec_err : proto.Marshaler :=
  λ _, proto.Err "proto: field contains invalid UTF-8".

Definition sample_schedule : list Choice :=
  [ Spawn (InvReport 1500000000 sample_report);
    Spawn InvServeHTTP;
    Step 0;
    Spawn (InvReport 3000000000 second_report);
    Step 1;
    Step 2;
    Step 1; Step 1; Step 1 ].

(** ** Notions for the further properties *)

(** The last [Report] of a sequence of calls, if there is one. *)
Fixpoint last_Report (invs : list Invocation)
    : option (time.Time * network.RequestStatsReport) :=
  match invs with
  | [] => None
  | InvReport now stats :: invs =>
      match last_Report invs with
      | Some last => Some last
      | None => Some (now, stats)
      end
  | InvServeHTTP :: invs => last_Report invs
  end.

(** The values the [Load]s of a trace returned. *)
Definition loaded (tr : list Event) : list (option metrics.Stat) :=
  omap (λ e, match e with EvLoad v => Some v | _ => None end) tr.

Definition is_Write (c : http.Call) : bool :=
  match c with http.Write _ => true | _ => false end.

(** A float that is not a finite number. *)
Definition non_finite (x : float64) : Prop :=
  x = nan ∨ x = infinity ∨ x = neg_infinity.

(** How often thread [n] is chosen in a schedule. *)
Fixpoint steps_of (n : nat) (chs : list Choice) : nat :=
  match chs with
  | [] => 0%nat
  | Step m :: chs =>
      if bool_decide (m = n) then S (steps_of n chs) else steps_of n chs
  | Spawn _ :: chs => steps_of n chs
  end.


(** * Properties of single calls *)

Section Calls.

Variable marshal : proto.Marshaler.

Lemma Report_stores r now stats :
  Report r now stats = atomic_Store (snapshot r now stats).
Proof. reflexivity. Qed.

Lemma call_Report_eq now stats r :
  call_Report marshal now stats r
  = (holding r (Some (snapshot r now stats)),
     [EvStore (snapshot r now stats)]).
Proof. reflexivity. Qed.

Lemma holding_stat r : holding r (stat r) = r.
Proof. by destruct r. Qed.

Lemma holding_holding r v v' : holding (holding r v) v' = holding r v'.
Proof. reflexivity. Qed.

Lemma snapshot_holding r v now stats :
  snapshot (holding r v) now stats = snapshot r now stats.
Proof. reflexivity. Qed.

(** The three ways a scrape can go. *)
Lemma call_ServeHTTP_empty r :
  stat r = None →
  call_ServeHTTP marshal r
  = (r, EvLoad None :: error_trace "no metrics available yet").
Proof. intros E. unfold call_ServeHTTP. simpl. by rewrite E. Qed.

Lemma call_ServeHTTP_err r data text :
  stat r = Some data → marshal data = proto.Err text →
  call_ServeHTTP marshal r
  = (r, EvLoad (Some data) :: EvMarshal data (proto.Err text)
          :: error_trace text).
Proof.
  intros E M. unfold call_ServeHTTP. simpl. rewrite E. simpl.
  by rewrite M.
Qed.

Lemma call_ServeHTTP_ok r data buffer :
  stat r = Some data → marshal data = proto.Bytes buffer →
  call_ServeHTTP marshal r
  = (r, [ EvLoad (Some data); EvMarshal data (proto.Bytes buffer);
          EvRespond (http.HeaderSet contentTypeHeader
                       network.ProtoAcceptContent);
          EvRespond (http.Write buffer) ]).
Proof.
  intros E M. unfold call_ServeHTTP. simpl. rewrite E. simpl.
  by rewrite M.
Qed.

(** A scrape only reads the receiver. *)
Lemma call_ServeHTTP_receiver r : (call_ServeHTTP marshal r).1 = r.
Proof.
  destruct (stat r) as [data|] eqn:E.
  - destruct (marshal data) as [buffer|text] eqn:M.
    + by rewrite (call_ServeHTTP_ok _ _ _ E M).
    + by rewrite (call_ServeHTTP_err _ _ _ E M).
  - by rewrite (call_ServeHTTP_empty _ E).
Qed.

(** What it does depends on the receiver through the value loaded only. *)
Lemma call_ServeHTTP_trace r r' :
  stat r = stat r' →
  (call_ServeHTTP marshal r).2 = (call_ServeHTTP marshal r').2.
Proof.
  intros E. unfold call_ServeHTTP. simpl. rewrite <- E.
  destruct (stat r) as [data|]; simpl; [|done].
  by destruct (marshal data).
Qed.

End Calls.

(** * Properties of sequences of calls *)

Section Sequences.

Variable marshal : proto.Marshaler.

Lemma invoke_identity i r :
  (invoke marshal i r).1 = holding r (stat (invoke marshal i r).1).
Proof.
  destruct i as [now stats|]; cbn [invoke].
  - by rewrite call_Report_eq.
  - by rewrite call_ServeHTTP_receiver, holding_stat.
Qed.

Lemma run_cons i invs r :
  run marshal (i :: invs) r
  = ((run marshal invs (invoke marshal i r).1).1,
     (invoke marshal i r).2 ++ (run marshal invs (invoke marshal i r).1).2).
Proof.
  simpl. destruct (invoke marshal i r) as [r1 tr1]. simpl.
  by destruct (run marshal invs r1).
Qed.

Lemma run_app invs1 invs2 r :
  run marshal (invs1 ++ invs2) r
  = ((run marshal invs2 (run marshal invs1 r).1).1,
     (run marshal invs1 r).2 ++ (run marshal invs2 (run marshal invs1 r).1).2).
Proof.
  revert r. induction invs1 as [|i invs1 IH]; intros r.
  - simpl. by destruct (run marshal invs2 r).
  - rewrite <- app_comm_cons, !run_cons, IH. simpl. by rewrite app_assoc.
Qed.

(** No call changes anything of the receiver but its atomic value. *)
Lemma run_identity invs r :
  (run marshal invs r).1 = holding r (stat (run marshal invs r).1).
Proof.
  revert r. induction invs as [|i invs IH]; intros r.
  - simpl. by rewrite holding_stat.
  - rewrite run_cons. simpl. rewrite IH at 1.
    by rewrite (invoke_identity i r) at 1.
Qed.

Lemma run_reportingPeriodSeconds invs r :
  reportingPeriodSeconds (run marshal invs r).1 = reportingPeriodSeconds r.
Proof. by rewrite run_identity. Qed.

Lemma run_podName invs r : podName (run marshal invs r).1 = podName r.
Proof. by rewrite run_identity. Qed.

Lemma published_app tr1 tr2 :
  published (tr1 ++ tr2) = published tr1 ++ published tr2.
Proof. apply omap_app. Qed.

Lemma published_invoke i r :
  Forall (λ s, metrics.PodName s = podName r)
    (published (invoke marshal i r).2).
Proof.
  destruct i as [now stats|]; cbn [invoke].
  - rewrite call_Report_eq. simpl. by repeat constructor.
  - destruct (stat r) as [data|] eqn:E.
    + destruct (marshal data) as [buffer|text] eqn:M.
      * by rewrite (call_ServeHTTP_ok _ _ _ _ E M).
      * by rewrite (call_ServeHTTP_err _ _ _ _ E M).
    + by rewrite (call_ServeHTTP_empty _ _ E).
Qed.

Lemma stat_invoke i r :
  from_option (λ s, metrics.PodName s = podName r) True (stat r) →
  from_option (λ s, metrics.PodName s = podName r) True
    (stat (invoke marshal i r).1).
Proof.
  destruct i as [now stats|]; cbn [invoke].
  - by rewrite call_Report_eq.
  - by rewrite call_ServeHTTP_receiver.
Qed.

Lemma run_names invs r :
  from_option (λ s, metrics.PodName s = podName r) True (stat r) →
  Forall (λ s, metrics.PodName s = podName r)
    (published (run marshal invs r).2) ∧
  from_option (λ s, metrics.PodName s = podName r) True
    (stat (run marshal invs r).1).
Proof.
  revert r. induction invs as [|i invs IH]; intros r Hr.
  - simpl. by split.
  - rewrite run_cons. simpl. rewrite published_app, Forall_app.
    pose proof (stat_invoke i r Hr) as Hi.
    assert (podName (invoke marshal i r).1 = podName r) as E
      by (by rewrite invoke_identity).
    rewrite <- E in Hi. destruct (IH _ Hi) as [H1 H2].
    rewrite E in H1, H2. split_and!; [apply published_invoke|done..].
Qed.

(** C1 (rate computation): whatever calls a reporter constructed with
    reporting period [period] has seen, the snapshot that [Report] then
    publishes for a raw report has as its request count the raw request
    count divided by the period in seconds, and as its proxied request
    count the raw proxied request count divided by the period in seconds;
    the division is the binary64 one and nothing else is applied. *)
Theorem Report_rates now0 pod period invs now stats :
  let r := (run marshal invs (NewProtobufStatsReporter now0 pod period)).1 in
  ∃ s,
    stat (call_Report marshal now stats r).1 = Some s ∧
    (call_Report marshal now stats r).2 = [EvStore s] ∧
    metrics.RequestCount s
    = PrimFloat.div (network.RequestCount stats) (time.Seconds period) ∧
    metrics.ProxiedRequestCount s
    = PrimFloat.div (network.ProxiedRequestCount stats)
        (time.Seconds period).
Proof.
  intros r. rewrite call_Report_eq. eexists. split_and!; try reflexivity.
  - simpl. unfold r. by rewrite run_reportingPeriodSeconds.
  - simpl. unfold r. by rewrite run_reportingPeriodSeconds.
Qed.

(** Under Go's [==] the published rate compares equal to the quotient
    unless the quotient is not a number. *)
Lemma Report_rates_eqb r now stats :
  let q :=
    PrimFloat.div (network.RequestCount stats) (reportingPeriodSeconds r) in
  PrimFloat.eqb (metrics.RequestCount (snapshot r now stats)) q
  = negb (PrimFloat.is_nan q).
Proof. intros q. unfold PrimFloat.is_nan. by rewrite negb_involutive. Qed.

(** C2 (pass-through): for every raw report and every state of the
    receiver, the snapshot [Report] publishes carries the raw average
    concurrency and average proxied concurrency as they are. *)
Theorem Report_pass_through r now stats :
  ∃ s,
    stat (call_Report marshal now stats r).1 = Some s ∧
    (call_Report marshal now stats r).2 = [EvStore s] ∧
    metrics.AverageConcurrentRequests s = network.AverageConcurrency stats ∧
    metrics.AverageProxiedConcurrentRequests s
    = network.AverageProxiedConcurrency stats.
Proof. rewrite call_Report_eq. eexists. by split_and!. Qed.

(** C8 (no error path): on a reporter constructed at [now0] for [pod]
    with period [period], after any sequence of calls, [Report] returns
    for every raw report; it makes one [Store] and no other call, so the
    codec and the writer are not touched; and the value stored is built
    from the raw report without a test on it: the counts divided by the
    period, the averages copied, whatever floats they are. *)
Theorem Report_no_error_path now0 pod period invs now stats :
  let r := (run marshal invs (NewProtobufStatsReporter now0 pod period)).1 in
  let res := call_Report marshal now stats r in
  let s :=
    {| metrics.PodName := pod;
       metrics.AverageConcurrentRequests := network.AverageConcurrency stats;
       metrics.AverageProxiedConcurrentRequests :=
         network.AverageProxiedConcurrency stats;
       metrics.RequestCount :=
         PrimFloat.div (network.RequestCount stats) (time.Seconds period);
       metrics.ProxiedRequestCount :=
         PrimFloat.div (network.ProxiedRequestCount stats)
           (time.Seconds period);
       metrics.ProcessUptime := time.Seconds (time.Since now now0) |} in
  res.1 = holding r (Some s) ∧
  res.2 = [EvStore s] ∧
  encoded res.2 = [] ∧
  calls res.2 = [].
Proof.
  intros r res s. unfold res. rewrite call_Report_eq. cbn [fst snd].
  assert (snapshot r now stats = s) as ->; [|done].
  unfold r. rewrite run_identity. apply snapshot_holding.
Qed.

(** C7 (identity stability): on a reporter constructed with name [pod],
    after any sequence of calls, every snapshot that was published has
    that name, and so has the receiver and the snapshot in its cell. *)
Theorem PodName_stable now0 pod period invs :
  let res := run marshal invs (NewProtobufStatsReporter now0 pod period) in
  Forall (λ s, metrics.PodName s = pod) (published res.2) ∧
  podName res.1 = pod ∧
  from_option (λ s, metrics.PodName s = pod) True (stat res.1).
Proof.
  intros res. unfold res.
  destruct (run_names invs (NewProtobufStatsReporter now0 pod period) I)
    as [H1 H2].
  split_and!; [done| |done]. by rewrite run_podName.
Qed.

(** C6 (replacement): after any sequence of calls that ends with a
    [Report], the cell holds the snapshot of that last report alone, a
    scrape encodes exactly that snapshot, and the scrape goes as it would
    had the last report been the only call. *)
Theorem ServeHTTP_reflects_last r invs now stats :
  let r' := (run marshal (invs ++ [InvReport now stats]) r).1 in
  stat r' = Some (snapshot r now stats) ∧
  encoded (call_ServeHTTP marshal r').2 = [snapshot r now stats] ∧
  (call_ServeHTTP marshal r').2
  = (call_ServeHTTP marshal (call_Report marshal now stats r).1).2.
Proof.
  intros r'.
  assert (stat r' = Some (snapshot r now stats)) as E.
  { unfold r'. rewrite run_app. cbn [run invoke fst].
    rewrite call_Report_eq. cbn [fst holding stat].
    by rewrite (run_identity invs r). }
  split_and!; [done| |].
  - destruct (marshal (snapshot r now stats)) as [buffer|text] eqn:M.
    + by rewrite (call_ServeHTTP_ok _ _ _ _ E M).
    + by rewrite (call_ServeHTTP_err _ _ _ _ E M).
  - apply call_ServeHTTP_trace. by rewrite E, call_Report_eq.
Qed.

End Sequences.

(** * The responses *)

Section Responses.

Variable marshal : proto.Marshaler.

Lemma calls_EvRespond cs : calls (EvRespond <$> cs) = cs.
Proof. induction cs as [|c cs IH]; [done|]. simpl. by f_equal. Qed.

Lemma calls_error_trace errMsg :
  calls (error_trace errMsg)
  = http.Error_calls (errorPrefix +:+ errMsg) http.StatusInternalServerError.
Proof. apply calls_EvRespond. Qed.

Lemma encoded_error_trace errMsg : encoded (error_trace errMsg) = [].
Proof. reflexivity. Qed.

(** What [http.Error] leaves on a fresh writer. *)
Lemma replay_Error h error code :
  http.replay (http.Error_calls error code) (http.fresh h)
  = {| http.HeaderMap :=
         <["X-Content-Type-Options" := ["nosniff"]]>
           (<["Content-Type" := ["text/plain; charset=utf-8"]]> h);
       http.wroteHeader := true;
       http.Code := code;
       http.snapHeader :=
         <["X-Content-Type-Options" := ["nosniff"]]>
           (<["Content-Type" := ["text/plain; charset=utf-8"]]> h);
       http.Body := error +:+ http.LF |}.
Proof. reflexivity. Qed.

Lemma response_error h pre errMsg :
  calls pre = [] →
  response h (pre ++ error_trace errMsg)
  = {| http.HeaderMap :=
         <["X-Content-Type-Options" := ["nosniff"]]>
           (<["Content-Type" := ["text/plain; charset=utf-8"]]> h);
       http.wroteHeader := true;
       http.Code := http.StatusInternalServerError;
       http.snapHeader :=
         <["X-Content-Type-Options" := ["nosniff"]]>
           (<["Content-Type" := ["text/plain; charset=utf-8"]]> h);
       http.Body := (errorPrefix +:+ errMsg) +:+ http.LF |}.
Proof.
  intros E. unfold response, calls. rewrite omap_app.
  fold (calls pre). fold (calls (error_trace errMsg)).
  rewrite E, calls_error_trace. apply replay_Error.
Qed.

Lemma Content_Type_after_Error (h : gmap string (list string)) :
  (<["X-Content-Type-Options" := ["nosniff"]]>
     (<["Content-Type" := ["text/plain; charset=utf-8"]]> h))
    !! contentTypeHeader
  = Some ["text/plain; charset=utf-8"].
Proof.
  unfold contentTypeHeader.
  rewrite lookup_insert_ne by done. apply lookup_insert_eq.
Qed.

(** The response of a scrape that gets its bytes. *)
Lemma response_ok h data buffer :
  response h
    [ EvLoad (Some data); EvMarshal data (proto.Bytes buffer);
      EvRespond (http.HeaderSet contentTypeHeader network.ProtoAcceptContent);
      EvRespond (http.Write buffer) ]
  = {| http.HeaderMap :=
         <[contentTypeHeader := [network.ProtoAcceptContent]]> h;
       http.wroteHeader := true;
       http.Code := http.StatusOK;
       http.snapHeader :=
         <[contentTypeHeader := [network.ProtoAcceptContent]]> h;
       http.Body := buffer |}.
Proof. reflexivity. Qed.

(** C3 (cold start), as the code has it: on a reporter that was
    constructed and has since seen nothing but scrapes, a scrape leaves
    the receiver as it is, loads nothing, does not call the codec, and
    answers through [http.Error]: status 500 and as body the prefix, the
    text "no metrics available yet" and the newline [http.Error] ends
    its message with. *)
Theorem ServeHTTP_cold_start now0 pod period n h :
  let r :=
    (run marshal (replicate n InvServeHTTP)
       (NewProtobufStatsReporter now0 pod period)).1 in
  let res := call_ServeHTTP marshal r in
  res.1 = r ∧
  res.2 = EvLoad None :: error_trace "no metrics available yet" ∧
  encoded res.2 = [] ∧
  http.Code (response h res.2) = http.StatusInternalServerError ∧
  http.Body (response h res.2)
  = (errorPrefix +:+ "no metrics available yet") +:+ http.LF.
Proof.
  intros r res.
  assert (stat r = None) as E.
  { unfold r. clear. induction n as [|n IH]; [done|].
    cbn [replicate]. rewrite run_cons. cbn [invoke fst].
    by rewrite call_ServeHTTP_receiver. }
  unfold res. rewrite (call_ServeHTTP_empty _ _ E). cbn [fst snd].
  by split_and!.
Qed.

(** C4 (success): when the cell holds a snapshot and the codec returns
    bytes for it, the scrape sets Content-Type to
    [network.ProtoAcceptContent] and writes the bytes, and does nothing
    else to the writer; the response has status 200, that content type,
    and exactly the bytes as its body. *)
Theorem ServeHTTP_success r data buffer h :
  stat r = Some data →
  marshal data = proto.Bytes buffer →
  let res := call_ServeHTTP marshal r in
  res.1 = r ∧
  calls res.2
  = [ http.HeaderSet contentTypeHeader network.ProtoAcceptContent;
      http.Write buffer ] ∧
  http.Code (response h res.2) = http.StatusOK ∧
  http.Result_Header (response h res.2) !! contentTypeHeader
  = Some [network.ProtoAcceptContent] ∧
  http.Body (response h res.2) = buffer.
Proof.
  intros E M res. unfold res. rewrite (call_ServeHTTP_ok _ _ _ _ E M).
  cbn [fst snd]. rewrite response_ok. split_and!; try done.
  unfold http.Result_Header. cbn. apply lookup_insert_eq.
Qed.

(** C5 (encode error), as the code has it: when the cell holds a
    snapshot and the codec fails on it, the scrape answers through
    [http.Error] with status 500 and as body the prefix, the text of the
    error and the newline [http.Error] ends its message with; it writes
    nothing else, and it leaves the receiver as it is, so that whatever
    is called afterwards goes as it would have gone without it. *)
Theorem ServeHTTP_encode_error r data text h :
  stat r = Some data →
  marshal data = proto.Err text →
  let res := call_ServeHTTP marshal r in
  res.1 = r ∧
  calls res.2
  = http.Error_calls (errorPrefix +:+ text) http.StatusInternalServerError ∧
  http.Code (response h res.2) = http.StatusInternalServerError ∧
  http.Body (response h res.2) = (errorPrefix +:+ text) +:+ http.LF ∧
  ∀ invs, run marshal invs res.1 = run marshal invs r.
Proof.
  intros E M res. unfold res. rewrite (call_ServeHTTP_err _ _ _ _ E M).
  cbn [fst snd].
  pose proof (response_error h
                [EvLoad (Some data); EvMarshal data (proto.Err text)]
                text eq_refl) as R.
  cbn [app] in R. rewrite R. by split_and!.
Qed.

(** C10 (content type on the error paths): when a scrape fails, for want
    of a snapshot or because the codec fails, it makes no call that sets
    Content-Type to [network.ProtoAcceptContent], and the response
    carries the content type [http.Error] sets, which is another one. *)
Theorem ServeHTTP_error_Content_Type r h :
  serve_fails marshal r = true →
  let tr := (call_ServeHTTP marshal r).2 in
  (http.HeaderSet contentTypeHeader network.ProtoAcceptContent ∉ calls tr) ∧
  http.Result_Header (response h tr) !! contentTypeHeader
  = Some ["text/plain; charset=utf-8"] ∧
  http.Result_Header (response h tr) !! contentTypeHeader
  ≠ Some [network.ProtoAcceptContent].
Proof.
  intros F tr. unfold serve_fails in F.
  assert (∃ pre errMsg, tr = pre ++ error_trace errMsg ∧ calls pre = [])
    as (pre & errMsg & -> & Hpre).
  { unfold tr. destruct (stat r) as [data|] eqn:E.
    - destruct (marshal data) as [buffer|text] eqn:M; [done|].
      rewrite (call_ServeHTTP_err _ _ _ _ E M).
      by exists [EvLoad (Some data); EvMarshal data (proto.Err text)], text.
    - rewrite (call_ServeHTTP_empty _ _ E).
      by exists [EvLoad None], "no metrics available yet". }
  rewrite (response_error h pre errMsg Hpre).
  unfold http.Result_Header. cbn [http.wroteHeader http.snapHeader].
  rewrite Content_Type_after_Error. split_and!; [|done|done].
  unfold calls. rewrite omap_app. fold (calls pre).
  fold (calls (error_trace errMsg)). rewrite Hpre, calls_error_trace.
  unfold http.Error_calls. cbn [app]. rewrite !elem_of_cons, elem_of_nil.
  intros [?|[?|[?|[?|[]]]]]; discriminate.
Qed.

(** The other way round: the protobuf content type is set exactly by the
    scrapes that get their bytes. *)
Lemma ServeHTTP_sets_Content_Type r :
  http.HeaderSet contentTypeHeader network.ProtoAcceptContent
    ∈ calls (call_ServeHTTP marshal r).2
  ↔ serve_fails marshal r = false.
Proof.
  unfold serve_fails. destruct (stat r) as [data|] eqn:E.
  - destruct (marshal data) as [buffer|text] eqn:M.
    + rewrite (call_ServeHTTP_ok _ _ _ _ E M). cbn [snd calls omap].
      split; [done|]. intros _. apply elem_of_cons. by left.
    + rewrite (call_ServeHTTP_err _ _ _ _ E M). cbn -[String.append].
      rewrite !elem_of_cons, elem_of_nil. split; [|done].
      intros [?|[?|[?|[?|[]]]]]; discriminate.
  - rewrite (call_ServeHTTP_empty _ _ E). cbn -[String.append].
    rewrite !elem_of_cons, elem_of_nil. split; [|done].
    intros [?|[?|[?|[?|[]]]]]; discriminate.
Qed.

End Responses.

(** * Calls running concurrently *)

Section Concurrency.

Variable marshal : proto.Marshaler.
Variable r0 : ProtobufStatsReporter.

Lemma ServeHTTP_Load r : ServeHTTP r = Load served.
Proof. reflexivity. Qed.

Lemma call_ServeHTTP_served r :
  (call_ServeHTTP marshal r).2
  = EvLoad (stat r) :: (exec marshal (served (stat r)) r).2.
Proof.
  unfold call_ServeHTTP. rewrite ServeHTTP_Load. cbn [exec].
  by destruct (exec marshal (served (stat r)) r) as [[[] r'] tr].
Qed.

Lemma local_http_Error error code : local (http_Error error code).
Proof. by cbn. Qed.

Lemma local_served v : local (served v).
Proof.
  destruct v as [data|]; [|apply local_http_Error].
  intros [buffer|text]; [by cbn|apply local_http_Error].
Qed.

(** A local body runs the same whatever the receiver holds. *)
Lemma local_exec {A} (p : Go A) r r' :
  local p → (exec marshal p r).2 = (exec marshal p r').2.
Proof.
  induction p as [a|k IH|v k IH|pb k IH|c k IH]; cbn; try done.
  - intros L. specialize (IH (marshal pb) (L _)).
    destruct (exec marshal (k (marshal pb)) r) as [[] ?].
    destruct (exec marshal (k (marshal pb)) r') as [[] ?].
    cbn in *. by f_equal.
  - intros L. specialize (IH L).
    destruct (exec marshal k r) as [[] ?].
    destruct (exec marshal k r') as [[] ?].
    cbn in *. by f_equal.
Qed.

(** A step of a local body is the head of its run. *)
Lemma local_step1 {A} (p p' : Go A) r r' e :
  local p → step1 marshal p r = Some (p', r', e) →
  r' = r ∧ local p' ∧
  (exec marshal p r0).2 = e :: (exec marshal p' r0).2.
Proof.
  destruct p as [a|k|v k|pb k|c k]; cbn; try done.
  - intros L ?. simplify_eq. split_and!; [done..|].
    by destruct (exec marshal (k (marshal pb)) r0) as [[] ?].
  - intros L ?. simplify_eq. split_and!; [done..|].
    by destruct (exec marshal p' r0) as [[] ?].
Qed.

(** A step of the whole agrees with the run of a body on its own. *)
Lemma exec_step1 {A} (p p' : Go A) r r' e :
  step1 marshal p r = Some (p', r', e) →
  exec marshal p r
  = ((exec marshal p' r').1, e :: (exec marshal p' r').2).
Proof.
  destruct p as [a|k|v k|pb k|c k]; cbn; try done;
    intros ?; simplify_eq.
  - by destruct (exec marshal (k (stat r')) r') as [[] ?].
  - by destruct (exec marshal p' (holding r (Some v))) as [[] ?].
  - by destruct (exec marshal (k (marshal pb)) r') as [[] ?].
  - by destruct (exec marshal p' r') as [[] ?].
Qed.

Lemma schedule1_extends c ch : extends c (schedule1 marshal c ch).
Proof.
  intros m t Hm Hret. destruct ch as [i|n]; cbn.
  - by apply lookup_app_l_Some.
  - destruct (threads c !! n) as [t'|] eqn:Hn; [|done].
    destruct (step1 marshal (code t') (shared c)) as [[[p' r'] e]|] eqn:Hs;
      [|done].
    cbn. destruct (decide (n = m)) as [->|Hne].
    + simplify_eq. unfold returned in Hret. by rewrite Hret in Hs.
    + by rewrite list_lookup_insert_ne.
Qed.

Lemma produced_extends c c' s :
  extends c c' → produced r0 c s → produced r0 c' s.
Proof.
  intros Hext (n & t & now & stats & Hn & Ho & Hret & ->).
  exists n, t, now, stats. split_and!; try done. by apply Hext.
Qed.

Lemma observable_extends c c' v :
  extends c c' → observable r0 c v → observable r0 c' v.
Proof. destruct v; [apply produced_extends|done]. Qed.

Lemma thread_inv_extends c c' t :
  extends c c' → thread_inv marshal r0 c t → thread_inv marshal r0 c' t.
Proof.
  unfold thread_inv. intros Hext. destruct (origin t); [done|].
  intros [?|(v & ? & ?)]; [by left|right].
  exists v. split; [by eapply observable_extends|done].
Qed.

Lemma inv_init : stat r0 = None → inv marshal r0 (init r0).
Proof.
  intros E. split_and!; cbn.
  - by rewrite holding_stat.
  - by rewrite E.
  - intros n t Hn. by rewrite lookup_nil in Hn.
Qed.

Lemma inv_Spawn c i :
  inv marshal r0 c → inv marshal r0 (schedule1 marshal c (Spawn i)).
Proof.
  intros (Hid & Hobs & Hthr).
  pose proof (schedule1_extends c (Spawn i)) as Hext.
  split_and!.
  - done.
  - by eapply observable_extends.
  - intros n t Hn. cbn in Hn.
    apply lookup_app_Some in Hn as [Hn|[_ Hn]].
    + eapply thread_inv_extends; eauto.
    + apply list_lookup_singleton_Some in Hn as [_ <-].
      unfold thread_inv, spawn. cbn. rewrite Hid.
      destruct i; by left.
Qed.

Lemma inv_Step c n :
  inv marshal r0 c → inv marshal r0 (schedule1 marshal c (Step n)).
Proof.
  intros (Hid & Hobs & Hthr).
  pose proof (schedule1_extends c (Step n)) as Hext.
  cbn in *. destruct (threads c !! n) as [t|] eqn:Ht; [|done].
  destruct (step1 marshal (code t) (shared c)) as [[[p' r'] e]|] eqn:Hs;
    [|done].
  pose proof (lookup_lt_Some _ _ _ Ht) as Hlt.
  pose proof (Hthr n t Ht) as Hinv. unfold thread_inv in Hinv.
  destruct (origin t) as [now stats|] eqn:Ho.
  - (* a Report thread: its one step is the Store *)
    destruct Hinv as [[Hc Hl]|[Hc Hl]]; rewrite Hc in Hs; [|done].
    rewrite Report_stores in Hs. cbn [step1 atomic_Store] in Hs.
    simplify_eq. split_and!; cbn [shared threads].
    + by rewrite Hid.
    + cbn [holding stat observable]. eexists n, _, now, stats.
      cbn [threads].
      split_and!; [by apply list_lookup_insert_eq|done|by unfold returned|done].
    + intros m t' Hm. destruct (decide (n = m)) as [<-|Hne].
      * rewrite list_lookup_insert_eq in Hm by done. simplify_eq.
        unfold thread_inv. cbn [origin code log]. rewrite Hl. by right.
      * rewrite list_lookup_insert_ne in Hm by done.
        by apply (thread_inv_extends c _ _ Hext), (Hthr m).
  - destruct Hinv as [[Hc Hl]|(v & Hv & Hloc & Hrun)].
    + (* a ServeHTTP thread: its first step is the Load *)
      rewrite Hc, ServeHTTP_Load in Hs. cbn [step1] in Hs. simplify_eq.
      split_and!; cbn [shared threads].
      * done.
      * by apply (observable_extends c _ _ Hext).
      * intros m t' Hm. destruct (decide (n = m)) as [<-|Hne].
        -- rewrite list_lookup_insert_eq in Hm by done. simplify_eq.
           unfold thread_inv. cbn [origin code log]. right.
           exists (stat (shared c)).
           split_and!; [|apply local_served|by rewrite Hl].
           by apply (observable_extends c _ _ Hext).
        -- rewrite list_lookup_insert_ne in Hm by done.
           by apply (thread_inv_extends c _ _ Hext), (Hthr m).
    + (* and the rest of it is local *)
      destruct (local_step1 _ _ _ _ _ Hloc Hs) as (-> & Hloc' & Hexec).
      split_and!; cbn [shared threads].
      * done.
      * by apply (observable_extends c _ _ Hext).
      * intros m t' Hm. destruct (decide (n = m)) as [<-|Hne].
        -- rewrite list_lookup_insert_eq in Hm by done. simplify_eq.
           unfold thread_inv. cbn [origin code log]. right. exists v.
           split_and!; [by apply (observable_extends c _ _ Hext)|done|].
           by rewrite <- Hrun, Hexec, <- app_assoc.
        -- rewrite list_lookup_insert_ne in Hm by done.
           by apply (thread_inv_extends c _ _ Hext), (Hthr m).
Qed.

Lemma schedule_cons ch chs c :
  schedule marshal (ch :: chs) c
  = schedule marshal chs (schedule1 marshal c ch).
Proof. reflexivity. Qed.

(** A thread scheduled alone until it returns does what [exec] says. *)
Lemma schedule_alone (p : Go unit) c i t :
  threads c !! i = Some t → code t = p →
  ∃ n,
    schedule marshal (replicate n (Step i)) c
    = {| shared := (exec marshal p (shared c)).1.2;
         threads :=
           <[i := {| origin := origin t; code := Return tt;
                     log := log t ++ (exec marshal p (shared c)).2 |}]>
             (threads c) |}.
Proof.
  revert c t.
  assert (∀ c t p' r' e,
    threads c !! i = Some t → step1 marshal (code t) (shared c)
                              = Some (p', r', e) →
    (∀ c' t', threads c' !! i = Some t' → code t' = p' →
       ∃ n, schedule marshal (replicate n (Step i)) c'
            = {| shared := (exec marshal p' (shared c')).1.2;
                 threads :=
                   <[i := {| origin := origin t'; code := Return tt;
                             log := log t' ++ (exec marshal p' (shared c')).2
                          |}]> (threads c') |}) →
    ∃ n, schedule marshal (replicate n (Step i)) c
         = {| shared := (exec marshal (code t) (shared c)).1.2;
              threads :=
                <[i := {| origin := origin t; code := Return tt;
                          log := log t ++ (exec marshal (code t) (shared c)).2
                       |}]> (threads c) |}) as Hstep.
  { intros c t p' r' e Ht Hs IH.
    pose proof (lookup_lt_Some _ _ _ Ht) as Hlt.
    destruct (IH {| shared := r';
                    threads := <[i := {| origin := origin t; code := p';
                                         log := log t ++ [e] |}]> (threads c) |}
                 {| origin := origin t; code := p'; log := log t ++ [e] |})
      as [n Hn]; [by apply list_lookup_insert_eq|done|].
    exists (S n). cbn [replicate]. rewrite schedule_cons. cbn [schedule1].
    rewrite Ht, Hs, Hn. cbn [shared threads origin log].
    rewrite (exec_step1 _ _ _ _ _ Hs). cbn [fst snd].
    by rewrite list_insert_insert_eq, <- app_assoc. }
  induction p as [[]|k IH|v k IH|pb k IH|a k IH]; intros c t Ht Hc.
  - exists 0%nat. cbn. rewrite app_nil_r. destruct c as [r ts], t as [o p l].
    cbn in *. subst. by rewrite list_insert_id.
  - rewrite <- Hc. eapply Hstep; [done|by rewrite Hc|]. intros. by apply IH.
  - rewrite <- Hc. eapply Hstep; [done|by rewrite Hc|]. intros. by apply IH.
  - rewrite <- Hc. eapply Hstep; [done|by rewrite Hc|]. intros. by apply IH.
  - rewrite <- Hc. eapply Hstep; [done|by rewrite Hc|]. intros. by apply IH.
Qed.

Lemma inv_schedule chs c :
  inv marshal r0 c → inv marshal r0 (schedule marshal chs c).
Proof.
  revert c. induction chs as [|ch chs IH]; intros c Hc; [done|].
  apply IH. destruct ch; [by apply inv_Spawn|by apply inv_Step].
Qed.

(** A scrape that has returned went as one running on its own would,
    on a receiver holding what it could observe. *)
Lemma inv_returned c n t :
  inv marshal r0 c → threads c !! n = Some t →
  origin t = InvServeHTTP → returned t →
  ∃ v, observable r0 c v ∧
       log t = (call_ServeHTTP marshal (holding r0 v)).2.
Proof.
  intros (_ & _ & Hthr) Hn Ho Hret. specialize (Hthr n t Hn).
  unfold thread_inv in Hthr. rewrite Ho in Hthr. unfold returned in Hret.
  destruct Hthr as [[Hc _]|(v & Hv & _ & Hrun)]; [by rewrite Hret in Hc|].
  exists v. split; [done|]. rewrite call_ServeHTTP_served. cbn [stat holding].
  rewrite Hret in Hrun. cbn in Hrun. rewrite app_nil_r in Hrun.
  rewrite Hrun. f_equal. apply local_exec, local_served.
Qed.

End Concurrency.

(** * The claims about concurrent calls, and concrete runs *)

(** C9 (no tearing): in every interleaving of [Report] and [ServeHTTP]
    calls on a reporter, with [Load] and [Store] atomic, the cell holds
    nothing or the snapshot of one [Report] call that has returned; every
    scrape that has returned went as a scrape on its own would on a
    receiver holding such a value; and when its response has status 200,
    the body is the encoding of the snapshot of one [Report] call that has
    returned. *)
Theorem no_tearing marshal now0 pod period chs :
  let r0 := NewProtobufStatsReporter now0 pod period in
  let c := schedule marshal chs (init r0) in
  observable r0 c (stat (shared c)) ∧
  ∀ n t h,
    threads c !! n = Some t → origin t = InvServeHTTP → returned t →
    (∃ v, observable r0 c v ∧
          log t = (call_ServeHTTP marshal (holding r0 v)).2) ∧
    (http.Code (response h (log t)) = http.StatusOK →
     ∃ s, produced r0 c s ∧
          marshal s = proto.Bytes (http.Body (response h (log t)))).
Proof.
  intros r0 c.
  assert (inv marshal r0 c) as Hinv by (by apply inv_schedule, inv_init).
  split; [apply Hinv|]. intros n t h Hn Ho Hret.
  destruct (inv_returned _ _ _ _ _ Hinv Hn Ho Hret) as (v & Hv & Hlog).
  split; [by exists v|]. rewrite Hlog. clear Hlog.
  destruct v as [s|].
  - destruct (marshal s) as [buffer|text] eqn:M.
    + rewrite (call_ServeHTTP_ok marshal (holding r0 (Some s)) s buffer)
        by done.
      intros _. exists s. by split.
    + rewrite (call_ServeHTTP_err marshal (holding r0 (Some s)) s text)
        by done.
      discriminate.
  - rewrite (call_ServeHTTP_empty marshal (holding r0 None)) by done.
    discriminate.
Qed.

(** The scenario of the specification: "pod-a", a period of 60 s, a report
    of 120 requests with concurrency 2, taken a second and a half after the
    start. *)
Example scenario_Report :
  stat (call_Report codec_ok 1500000000 sample_report sample_reporter).1
  = Some {| metrics.PodName := "pod-a";
            metrics.AverageConcurrentRequests := 2;
            metrics.AverageProxiedConcurrentRequests := 0;
            metrics.RequestCount := 2;
            metrics.ProxiedRequestCount := 0;
            metrics.ProcessUptime := 1.5 |}.
Proof. reflexivity. Qed.

(** Negative and non-finite inputs go through [Report] like any other. *)
Example Report_negative_and_non_finite :
  let stats :=
    {| network.AverageConcurrency := nan;
       network.AverageProxiedConcurrency := neg_infinity;
       network.RequestCount := (-120);
       network.ProxiedRequestCount := infinity |} in
  stat (call_Report codec_ok 1500000000 stats sample_reporter).1
  = Some {| metrics.PodName := "pod-a";
            metrics.AverageConcurrentRequests := nan;
            metrics.AverageProxiedConcurrentRequests := neg_infinity;
            metrics.RequestCount := (-2);
            metrics.ProxiedRequestCount := infinity;
            metrics.ProcessUptime := 1.5 |}.
Proof. reflexivity. Qed.

(** With a period of zero the rates are infinite or not a number. *)
Example Report_zero_period :
  let r := NewProtobufStatsReporter 0 "pod-a" 0 in
  stat (call_Report codec_ok 1500000000 sample_report r).1
  = Some {| metrics.PodName := "pod-a";
            metrics.AverageConcurrentRequests := 2;
            metrics.AverageProxiedConcurrentRequests := 0;
            metrics.RequestCount := infinity;
            metrics.ProxiedRequestCount := nan;
            metrics.ProcessUptime := 1.5 |}.
Proof. reflexivity. Qed.

(** The whole body of the answer to a scrape before the first report. *)
Example cold_start_Body :
  http.Body (response ∅ (call_ServeHTTP codec_ok sample_reporter).2)
  = "An error has occurred while serving metrics:" +:+ http.LF +:+ http.LF
    +:+ "no metrics available yet" +:+ http.LF.
Proof. reflexivity. Qed.

(** C3, as stated, fails: the body of the answer to a scrape of a fresh
    reporter is not the prefix followed by "no metrics available yet"; a
    newline follows. *)
Lemma cold_start_Body_is_longer :
  http.Body (response ∅ (call_ServeHTTP codec_ok sample_reporter).2)
  ≠ errorPrefix +:+ "no metrics available yet".
Proof. vm_compute. discriminate. Qed.

(** C5, as stated, fails: with a snapshot in the cell and a codec that
    fails with a text, the body is not the prefix followed by that text; a
    newline follows. *)
Lemma encode_error_Body_is_longer :
  let r := (call_Report codec_err 1500000000 sample_report sample_reporter).1 in
  serve_fails codec_err r = true ∧
  http.Body (response ∅ (call_ServeHTTP codec_err r).2)
  ≠ errorPrefix +:+ "proto: field contains invalid UTF-8".
Proof. split; [reflexivity|]. vm_compute. discriminate. Qed.

(** C4 at the sample reporter after one report, with the codec that
    returns the pod name. *)
Lemma ServeHTTP_success_witness :
  http.Code
    (response ∅
       (call_ServeHTTP codec_ok
          (call_Report codec_ok 1500000000 sample_report sample_reporter).1).2)
  = 200
  ∧ http.Body
      (response ∅
         (call_ServeHTTP codec_ok
            (call_Report codec_ok 1500000000 sample_report sample_reporter).1).2)
    = "pod-a".
Proof.
  pose proof
    (ServeHTTP_success codec_ok
       (call_Report codec_ok 1500000000 sample_report sample_reporter).1
       (snapshot sample_reporter 1500000000 sample_report) "pod-a" ∅
       eq_refl eq_refl) as H.
  exact (conj (proj1 (proj2 (proj2 H))) (proj2 (proj2 (proj2 (proj2 H))))).
Defined.

(** C5 at the sample reporter after one report, with the codec that
    fails. *)
Lemma ServeHTTP_encode_error_witness :
  http.Code
    (response ∅
       (call_ServeHTTP codec_err
          (call_Report codec_err 1500000000 sample_report sample_reporter).1).2)
  = 500.
Proof.
  exact
    (proj1 (proj2 (proj2
       (ServeHTTP_encode_error codec_err
          (call_Report codec_err 1500000000 sample_report sample_reporter).1
          (snapshot sample_reporter 1500000000 sample_report)
          "proto: field contains invalid UTF-8" ∅ eq_refl eq_refl)))).
Defined.

(** C10 at the fresh sample reporter, on a writer that came with the
    protobuf content type already in its header map. *)
Lemma ServeHTTP_error_Content_Type_witness :
  http.Result_Header
    (response {[ "Content-Type" := ["application/protobuf"] ]}
       (call_ServeHTTP codec_ok sample_reporter).2)
    !! "Content-Type"
  = Some ["text/plain; charset=utf-8"].
Proof.
  exact
    (proj1 (proj2
       (ServeHTTP_error_Content_Type codec_ok sample_reporter
          {[ "Content-Type" := ["application/protobuf"] ]} eq_refl))).
Defined.

(** C9 at the sample schedule: the scrape loaded the first snapshot and
    returned after the second was stored. *)
Lemma no_tearing_witness :
  let c := schedule codec_ok sample_schedule (init sample_reporter) in
  let t :=
    {| origin := InvServeHTTP; code := Return tt;
       log :=
         (call_ServeHTTP codec_ok
            (holding sample_reporter
               (Some (snapshot sample_reporter 1500000000 sample_report)))).2
    |} in
  stat (shared c) = Some (snapshot sample_reporter 3000000000 second_report) ∧
  threads c !! 1%nat = Some t ∧
  ∃ s, produced sample_reporter c s ∧
       codec_ok s = proto.Bytes (http.Body (response ∅ (log t))).
Proof.
  intros c t. split; [reflexivity|]. split; [reflexivity|].
  exact
    (proj2
       (proj2 (no_tearing codec_ok 0 "pod-a" (60 * time.Second) sample_schedule)
          1%nat t ∅ eq_refl eq_refl eq_refl)
       eq_refl).
Defined.

(** * Further properties of the sequential calls *)

Section Further.

Variable marshal : proto.Marshaler.

(** X1: after any sequence of calls the receiver is what it was, but for
    its cell, which holds the snapshot of the last [Report] of the
    sequence, or what it held when there was none. *)
Theorem run_last_Report invs r :
  (run marshal invs r).1
  = holding r
      match last_Report invs with
      | Some (now, stats) => Some (snapshot r now stats)
      | None => stat r
      end.
Proof.
  revert r. induction invs as [|[now stats|] invs IH]; intros r.
  - cbn. by rewrite holding_stat.
  - rewrite run_cons. cbn [invoke last_Report]. rewrite call_Report_eq.
    cbn [fst]. rewrite IH. by destruct (last_Report invs) as [[now' stats']|].
  - rewrite run_cons. cbn [invoke last_Report].
    by rewrite call_ServeHTTP_receiver, IH.
Qed.

(** X2: scrapes can be repeated: any number of them in a row leaves the
    receiver as it is, and each makes the calls the first one makes. *)
Theorem ServeHTTP_repeatable n r :
  run marshal (replicate n InvServeHTTP) r
  = (r, concat (replicate n (call_ServeHTTP marshal r).2)).
Proof.
  induction n as [|n IH]; [done|].
  cbn [replicate]. rewrite run_cons. cbn [invoke].
  by rewrite call_ServeHTTP_receiver, IH.
Qed.

(** X3: the status of the answer to a scrape is 200 when the cell holds
    a snapshot and the codec returns bytes for it, and 500 otherwise. *)
Theorem ServeHTTP_status r h :
  http.Code (response h (call_ServeHTTP marshal r).2)
  = if serve_fails marshal r then http.StatusInternalServerError
    else http.StatusOK.
Proof.
  unfold serve_fails. destruct (stat r) as [data|] eqn:E.
  - destruct (marshal data) as [buffer|text] eqn:M.
    + by rewrite (call_ServeHTTP_ok _ _ _ _ E M).
    + by rewrite (call_ServeHTTP_err _ _ _ _ E M).
  - by rewrite (call_ServeHTTP_empty _ _ E).
Qed.

(** X4: a scrape always answers, and in the right order: it ends with
    the one [Write] it makes, every call before that is on the header,
    so the header is sent and every header it set is in what is sent. *)
Theorem ServeHTTP_commits r h :
  let tr := (call_ServeHTTP marshal r).2 in
  http.wroteHeader (response h tr) = true ∧
  http.Result_Header (response h tr) = http.HeaderMap (response h tr) ∧
  ∃ pre p, calls tr = pre ++ [http.Write p] ∧
           Forall (λ c, is_Write c = false) pre.
Proof.
  intros tr. unfold tr. destruct (stat r) as [data|] eqn:E.
  - destruct (marshal data) as [buffer|text] eqn:M.
    + rewrite (call_ServeHTTP_ok _ _ _ _ E M). split_and!; [done..|].
      eexists [_], _. split; [done|]. by repeat constructor.
    + rewrite (call_ServeHTTP_err _ _ _ _ E M). split_and!; [done..|].
      eexists [_; _; _], _. split; [done|]. by repeat constructor.
  - rewrite (call_ServeHTTP_empty _ _ E). split_and!; [done..|].
    eexists [_; _; _], _. split; [done|]. by repeat constructor.
Qed.

(** X5: a scrape leaves the headers it was handed alone, but for
    Content-Type and, when it answers with an error,
    X-Content-Type-Options. *)
Theorem ServeHTTP_header_frame r (h : gmap string (list string)) k :
  k ≠ "Content-Type" →
  (serve_fails marshal r = true → k ≠ "X-Content-Type-Options") →
  http.Result_Header (response h (call_ServeHTTP marshal r).2) !! k = h !! k.
Proof.
  unfold serve_fails. intros Hk Hx. destruct (stat r) as [data|] eqn:E.
  - destruct (marshal data) as [buffer|text] eqn:M.
    + rewrite (call_ServeHTTP_ok _ _ _ _ E M). cbn [snd].
      rewrite response_ok. unfold http.Result_Header. cbn [http.wroteHeader http.snapHeader].
      by rewrite lookup_insert_ne.
    + rewrite (call_ServeHTTP_err _ _ _ _ E M). cbn [snd].
      pose proof (response_error h
                    [EvLoad (Some data); EvMarshal data (proto.Err text)]
                    text eq_refl) as R.
      cbn [app] in R. rewrite R. unfold http.Result_Header. cbn [http.wroteHeader http.snapHeader].
      rewrite !lookup_insert_ne; [done|done|]. intros <-. by apply Hx.
  - rewrite (call_ServeHTTP_empty _ _ E). cbn [snd].
    pose proof (response_error h [EvLoad None]
                  "no metrics available yet" eq_refl) as R.
    cbn [app] in R. rewrite R. unfold http.Result_Header. cbn [http.wroteHeader http.snapHeader].
    rewrite !lookup_insert_ne; [done|done|]. intros <-. by apply Hx.
Qed.

(** X6: a scrape loads the cell once, hands the codec what it loaded,
    once, when that is a snapshot and not at all when it is nothing, and
    stores nothing. *)
Theorem ServeHTTP_events r :
  let tr := (call_ServeHTTP marshal r).2 in
  loaded tr = [stat r] ∧
  encoded tr = from_option (λ data, [data]) [] (stat r) ∧
  published tr = [].
Proof.
  intros tr. unfold tr. destruct (stat r) as [data|] eqn:E.
  - destruct (marshal data) as [buffer|text] eqn:M.
    + by rewrite (call_ServeHTTP_ok _ _ _ _ E M).
    + by rewrite (call_ServeHTTP_err _ _ _ _ E M).
  - by rewrite (call_ServeHTTP_empty _ _ E).
Qed.

(** X7: from a report to the answer of the next scrape: when the codec
    returns bytes for the snapshot of the last report, the scrape answers
    with status 200, the protobuf content type and those bytes, whatever
    was called before that report. *)
Theorem Report_then_ServeHTTP r invs now stats buffer h :
  marshal (snapshot r now stats) = proto.Bytes buffer →
  let r' := (run marshal (invs ++ [InvReport now stats]) r).1 in
  let w := response h (call_ServeHTTP marshal r').2 in
  http.Code w = http.StatusOK ∧
  http.Result_Header w !! contentTypeHeader
  = Some [network.ProtoAcceptContent] ∧
  http.Body w = buffer.
Proof.
  intros M r' w.
  assert (stat r' = Some (snapshot r now stats)) as E.
  { unfold r'. rewrite run_app. cbn [run invoke fst].
    rewrite call_Report_eq. cbn [fst holding stat].
    by rewrite (run_identity marshal invs r). }
  unfold w. rewrite (call_ServeHTTP_ok _ _ _ _ E M). cbn [snd].
  rewrite response_ok. split_and!; [done| |done].
  unfold http.Result_Header. cbn [http.wroteHeader http.snapHeader].
  apply lookup_insert_eq.
Qed.

Lemma float64_div_zero x :
  non_finite (PrimFloat.div x 0%float).
Proof.
  unfold non_finite.
  rewrite <- (SF2Prim_Prim2SF (PrimFloat.div x 0)), FloatAxioms.div_spec.
  change (Prim2SF 0) with (S754_zero false).
  destruct (Prim2SF x) as [[]| [] | |[] m e]; cbn; auto.
Qed.

Lemma float64_div_nan y : PrimFloat.div nan y = nan.
Proof.
  rewrite <- (SF2Prim_Prim2SF (PrimFloat.div nan y)), FloatAxioms.div_spec.
  by change (Prim2SF nan) with S754_nan.
Qed.

(** X8: a reporter constructed with a period of zero publishes no finite
    rate: for every raw report both rates are an infinity or not a
    number, and [Report] goes through all the same. *)
Theorem Report_zero_period_rates now0 pod invs now stats :
  let r := (run marshal invs (NewProtobufStatsReporter now0 pod 0)).1 in
  ∃ s,
    stat (call_Report marshal now stats r).1 = Some s ∧
    non_finite (metrics.RequestCount s) ∧
    non_finite (metrics.ProxiedRequestCount s).
Proof.
  intros r. rewrite call_Report_eq. eexists. split; [done|].
  cbn [snapshot metrics.RequestCount metrics.ProxiedRequestCount].
  unfold r. rewrite run_reportingPeriodSeconds.
  change (reportingPeriodSeconds (NewProtobufStatsReporter now0 pod 0))
    with 0%float.
  split; apply float64_div_zero.
Qed.

(** X9: a raw count that is not a number comes out as a rate that is not
    a number, whatever the period. *)
Theorem Report_NaN_count r now stats :
  network.RequestCount stats = nan →
  ∃ s,
    stat (call_Report marshal now stats r).1 = Some s ∧
    metrics.RequestCount s = nan.
Proof.
  intros E. rewrite call_Report_eq. eexists. split; [done|].
  cbn [snapshot metrics.RequestCount]. rewrite E. apply float64_div_nan.
Qed.

(** X10: the uptime is measured from the reporter's own start: moving
    the start and the time of the report by the same amount changes
    nothing of the snapshot, and a report at the very start has uptime
    zero. *)
Theorem Report_uptime_origin now0 now d pod period stats :
  stat (call_Report marshal (now + d) stats
          (NewProtobufStatsReporter (now0 + d) pod period)).1
  = stat (call_Report marshal now stats
            (NewProtobufStatsReporter now0 pod period)).1
  ∧ metrics.ProcessUptime <$>
      stat (call_Report marshal now0 stats
              (NewProtobufStatsReporter now0 pod period)).1
    = Some 0%float.
Proof.
  rewrite !call_Report_eq. cbn [fst holding stat]. split.
  - unfold snapshot, time.Sub. cbn [startTime NewProtobufStatsReporter].
    by replace (now + d - (now0 + d)) with (now - now0) by lia.
  - unfold snapshot, time.Sub. cbn [startTime NewProtobufStatsReporter
      metrics.ProcessUptime fmap option_fmap option_map].
    by rewrite Z.sub_diag.
Qed.

End Further.

(** * Further properties of the concurrent calls *)

Section FurtherConcurrency.

Variable marshal : proto.Marshaler.
Variable r0 : ProtobufStatsReporter.


Lemma returned_dec t : returned t ∨ ¬ returned t.
Proof.
  unfold returned. destruct (code t) as [[]|k|v k|pb k|a k];
    [by left|by right..].
Qed.

Lemma extends_refl c : extends c c.
Proof. by intros n t. Qed.

Lemma extends_trans c1 c2 c3 : extends c1 c2 → extends c2 c3 → extends c1 c3.
Proof. intros H12 H23 n t Hn Hret. apply H23; [|done]. by apply H12. Qed.

Lemma schedule_extends chs c : extends c (schedule marshal chs c).
Proof.
  revert c. induction chs as [|ch chs IH]; intros c; [apply extends_refl|].
  rewrite schedule_cons.
  eapply extends_trans; [apply schedule1_extends|apply IH].
Qed.



(** A scrape that has loaded makes at most five more calls. *)
Lemma served_length v r : (length (exec marshal (served v) r).2 ≤ 5)%nat.
Proof.
  destruct v as [data|]; cbn; [|lia].
  destruct (marshal data); cbn; lia.
Qed.

Lemma exec_nil (p : Go unit) r : (exec marshal p r).2 = [] → p = Return tt.
Proof.
  destruct p as [[]|k|v k|pb k|a k]; cbn; [done|..].
  - by destruct (exec marshal (k (stat r)) r) as [[] ?].
  - by destruct (exec marshal k (holding r (Some v))) as [[] ?].
  - by destruct (exec marshal (k (marshal pb)) r) as [[] ?].
  - by destruct (exec marshal k r) as [[] ?].
Qed.

Lemma log_bound c n t :
  inv marshal r0 c → threads c !! n = Some t →
  returned t ∨ (length (log t) ≤ 5)%nat.
Proof.
  intros (_ & _ & Hthr) Hn. specialize (Hthr n t Hn).
  unfold thread_inv in Hthr. destruct (origin t) as [now stats|].
  - destruct Hthr as [[_ ->]|[Hc _]]; [right; cbn; lia|by left].
  - destruct Hthr as [[_ ->]|(v & _ & _ & Hrun)]; [right; cbn; lia|].
    destruct (returned_dec t) as [|Hnot]; [by left|right].
    apply (f_equal length) in Hrun. rewrite length_app in Hrun.
    cbn [length] in Hrun. pose proof (served_length v r0).
    destruct (exec marshal (code t) r0).2 eqn:Hnil; [|cbn in Hrun; lia].
    by apply exec_nil in Hnil.
Qed.

Lemma Step_progress c n t :
  threads c !! n = Some t → ¬ returned t →
  ∃ t', threads (schedule1 marshal c (Step n)) !! n = Some t' ∧
        length (log t') = S (length (log t)).
Proof.
  intros Hn Hnot. cbn [schedule1]. rewrite Hn.
  pose proof (lookup_lt_Some _ _ _ Hn) as Hlt.
  destruct (step1 marshal (code t) (shared c)) as [[[p' r'] e]|] eqn:Hs.
  - eexists. cbn [threads]. split; [by apply list_lookup_insert_eq|].
    cbn [log]. rewrite length_app. cbn. lia.
  - destruct Hnot. unfold returned.
    by destruct (code t) as [[]|k|v k|pb k|a k].
Qed.

Lemma other_choice c n t ch :
  threads c !! n = Some t → ch ≠ Step n →
  threads (schedule1 marshal c ch) !! n = Some t.
Proof.
  intros Hn Hch. destruct ch as [i|m]; cbn [schedule1 threads].
  - by apply lookup_app_l_Some.
  - destruct (threads c !! m) as [t'|]; [|done].
    destruct (step1 marshal (code t') (shared c)) as [[[p' r'] e]|]; [|done].
    cbn [threads]. rewrite list_lookup_insert_ne; [done|]. by intros ->.
Qed.

Lemma steps_progress chs c n t :
  threads c !! n = Some t →
  ∃ t', threads (schedule marshal chs c) !! n = Some t' ∧
        (returned t' ∨
         length (log t') = (length (log t) + steps_of n chs)%nat).
Proof.
  revert c t. induction chs as [|ch chs IH]; intros c t Hn.
  - exists t. split; [done|]. right. cbn. lia.
  - rewrite schedule_cons.
    destruct ch as [i|m]; cbn [steps_of].
    + by apply IH, other_choice.
    + case_bool_decide as Hm; [subst m|by apply IH, other_choice; [|congruence]].
      destruct (returned_dec t) as [Hret|Hnot].
      * exists t. split; [|by left].
        apply (schedule_extends chs); [|done].
        by apply (schedule1_extends marshal c (Step n)).
      * destruct (Step_progress c n t Hn Hnot) as (t1 & Hn1 & Hlen).
        destruct (IH _ _ Hn1) as (t' & Hn' & Hcase).
        exists t'. split; [done|]. destruct Hcase; [by left|right]. lia.
Qed.

End FurtherConcurrency.


(** X12: in every interleaving, no step of a [ServeHTTP] thread changes
    the reporter. *)
Theorem ServeHTTP_step_shared marshal now0 pod period chs n t :
  let c :=
    schedule marshal chs (init (NewProtobufStatsReporter now0 pod period)) in
  threads c !! n = Some t → origin t = InvServeHTTP →
  shared (schedule1 marshal c (Step n)) = shared c.
Proof.
  intros c Hn Ho. set (r0 := NewProtobufStatsReporter now0 pod period) in *.
  assert (inv marshal r0 c) as (_ & _ & Hthr)
    by (by apply inv_schedule, inv_init).
  specialize (Hthr n t Hn). unfold thread_inv in Hthr. rewrite Ho in Hthr.
  cbn [schedule1]. rewrite Hn.
  destruct (step1 marshal (code t) (shared c)) as [[[p' r'] e]|] eqn:Hs;
    [|done].
  cbn [shared]. destruct Hthr as [[Hc _]|(v & _ & Hloc & _)].
  - rewrite Hc, ServeHTTP_Load in Hs. cbn [step1] in Hs. by simplify_eq.
  - by destruct (local_step1 marshal r0 _ _ _ _ _ Hloc Hs) as (-> & _).
Qed.

(** X13: in every interleaving, the step of a [Report] thread that has
    not returned puts its snapshot in the cell, whatever was there, and
    the thread has then returned, with that one [Store] as all it did. *)
Theorem Report_step_publishes marshal now0 pod period chs n t now stats :
  let r0 := NewProtobufStatsReporter now0 pod period in
  let c := schedule marshal chs (init r0) in
  threads c !! n = Some t → origin t = InvReport now stats → ¬ returned t →
  stat (shared (schedule1 marshal c (Step n)))
  = Some (snapshot r0 now stats) ∧
  threads (schedule1 marshal c (Step n)) !! n
  = Some {| origin := InvReport now stats; code := Return tt;
            log := [EvStore (snapshot r0 now stats)] |}.
Proof.
  intros r0 c Hn Ho Hnot.
  assert (inv marshal r0 c) as (_ & _ & Hthr)
    by (by apply inv_schedule, inv_init).
  pose proof (lookup_lt_Some _ _ _ Hn) as Hlt.
  specialize (Hthr n t Hn). unfold thread_inv in Hthr. rewrite Ho in Hthr.
  destruct Hthr as [[Hc Hl]|[Hc _]]; [|done].
  cbn [schedule1]. rewrite Hn, Hc, Report_stores. cbn [step1 atomic_Store].
  cbn [shared threads holding stat]. split; [done|].
  rewrite list_lookup_insert_eq by done. by rewrite Ho, Hl.
Qed.

(** X14: in every interleaving, a call returns within six steps of its
    own, whatever the other threads do in between. *)
Theorem wait_free marshal now0 pod period chs chs' n t :
  let c :=
    schedule marshal chs (init (NewProtobufStatsReporter now0 pod period)) in
  threads c !! n = Some t → (6 ≤ steps_of n chs')%nat →
  ∃ t', threads (schedule marshal chs' c) !! n = Some t' ∧ returned t'.
Proof.
  intros c Hn Hsteps. set (r0 := NewProtobufStatsReporter now0 pod period) in *.
  assert (inv marshal r0 c) as Hinv by (by apply inv_schedule, inv_init).
  destruct (steps_progress marshal chs' c n t Hn) as (t' & Hn' & Hcase).
  exists t'. split; [done|]. destruct Hcase as [|Hlen]; [done|].
  destruct (log_bound marshal r0 (schedule marshal chs' c) n t')
    as [|Hle]; [by apply inv_schedule|done|done|lia].
Qed.

(** * Concrete runs of the further properties *)

(** X5 on a scrape that gets its bytes: a nosniff header the writer came
    with is still there. *)
Lemma ServeHTTP_header_frame_witness :
  http.Result_Header
    (response {[ "X-Content-Type-Options" := ["nosniff"] ]}
       (call_ServeHTTP codec_ok
          (call_Report codec_ok 1500000000 sample_report sample_reporter).1).2)
    !! "X-Content-Type-Options"
  = ({[ "X-Content-Type-Options" := ["nosniff"] ]}
       : gmap string (list string)) !! "X-Content-Type-Options".
Proof.
  apply (ServeHTTP_header_frame codec_ok
           (call_Report codec_ok 1500000000 sample_report sample_reporter).1
           {[ "X-Content-Type-Options" := ["nosniff"] ]}
           "X-Content-Type-Options").
  - discriminate.
  - discriminate.
Defined.

(** X7 after a scrape and an earlier report. *)
Lemma Report_then_ServeHTTP_witness :
  http.Body
    (response ∅
       (call_ServeHTTP codec_ok
          (run codec_ok
             ([InvServeHTTP; InvReport 1 second_report]
              ++ [InvReport 1500000000 sample_report])
             sample_reporter).1).2)
  = "pod-a".
Proof.
  exact
    (proj2 (proj2
       (Report_then_ServeHTTP codec_ok sample_reporter
          [InvServeHTTP; InvReport 1 second_report]
          1500000000 sample_report "pod-a" ∅ eq_refl))).
Defined.

(** X9 on a report whose request count is not a number. *)
Lemma Report_NaN_count_witness :
  ∃ s,
    stat (call_Report codec_ok 1500000000
            {| network.AverageConcurrency := 2;
               network.AverageProxiedConcurrency := 0;
               network.RequestCount := nan;
               network.ProxiedRequestCount := 0 |}
            sample_reporter).1
    = Some s ∧
    metrics.RequestCount s = nan.
Proof.
  exact
    (Report_NaN_count codec_ok sample_reporter 1500000000
       {| network.AverageConcurrency := 2;
          network.AverageProxiedConcurrency := 0;
          network.RequestCount := nan;
          network.ProxiedRequestCount := 0 |}
       eq_refl).
Defined.


(** X12 on the step after the [Load] of a scrape. *)
Lemma ServeHTTP_step_shared_witness :
  let c :=
    schedule codec_ok
      [ Spawn (InvReport 1500000000 sample_report); Spawn InvServeHTTP;
        Step 0; Step 1 ]
      (init sample_reporter) in
  shared (schedule1 codec_ok c (Step 1)) = shared c.
Proof.
  exact
    (ServeHTTP_step_shared codec_ok 0 "pod-a" (60 * time.Second)
       [ Spawn (InvReport 1500000000 sample_report); Spawn InvServeHTTP;
         Step 0; Step 1 ]
       1%nat
       {| origin := InvServeHTTP;
          code :=
            served (Some (snapshot sample_reporter 1500000000 sample_report));
          log :=
            [EvLoad (Some (snapshot sample_reporter 1500000000 sample_report))]
       |}
       eq_refl eq_refl).
Defined.

(** X13 on a second report that stores over the first. *)
Lemma Report_step_publishes_witness :
  let c :=
    schedule codec_ok
      [ Spawn (InvReport 1500000000 sample_report); Step 0;
        Spawn (InvReport 3000000000 second_report) ]
      (init sample_reporter) in
  stat (shared c) = Some (snapshot sample_reporter 1500000000 sample_report) ∧
  stat (shared (schedule1 codec_ok c (Step 1)))
  = Some (snapshot sample_reporter 3000000000 second_report).
Proof.
  split; [reflexivity|].
  refine
    (proj1
       (Report_step_publishes codec_ok 0 "pod-a" (60 * time.Second)
          [ Spawn (InvReport 1500000000 sample_report); Step 0;
            Spawn (InvReport 3000000000 second_report) ]
          1%nat (spawn (InvReport 3000000000 second_report) sample_reporter)
          3000000000 second_report eq_refl eq_refl _)).
  discriminate.
Defined.

(** X14 on a scrape whose six steps are spread among those of a report
    and of a second scrape, with the codec that fails. *)
Lemma wait_free_witness :
  ∃ t',
    threads
      (schedule codec_err
         [ Step 1; Step 0; Step 1; Step 1; Spawn InvServeHTTP; Step 1;
           Step 1; Step 2; Step 1 ]
         (schedule codec_err
            [ Spawn (InvReport 1500000000 sample_report); Spawn InvServeHTTP ]
            (init sample_reporter)))
      !! 1%nat
    = Some t' ∧
    returned t'.
Proof.
  apply (wait_free codec_err 0 "pod-a" (60 * time.Second)
           [ Spawn (InvReport 1500000000 sample_report); Spawn InvServeHTTP ]
           [ Step 1; Step 0; Step 1; Step 1; Spawn InvServeHTTP; Step 1;
             Step 1; Step 2; Step 1 ]
           1%nat (spawn InvServeHTTP sample_reporter)).
  - reflexivity.
  - vm_compute. lia.
Defined.
